(** * Canyon-SQL: entity metadata and dynamic parameter binding

    A shallow embedding of the parts of Canyon-SQL that bind query
    parameters ([canyon_crud/src/bounds.rs]), derive table names and row
    mappers ([canyon_macros/src/lib.rs]), generate the update operation
    ([canyon_macros/src/query_operations/update.rs]) and register entities
    ([canyon_managed]). A Rust computation that may panic is modelled in the
    [outcome] type; a recoverable Rust [Result] in the [result] type. *)

From Stdlib Require Import ZArith List String Ascii Bool Lia.
Import ListNotations.

(** ** Effects *)

(** The result of Rust code that either returns or panics with a message. *)
Inductive outcome (A : Type) : Type :=
| Ret (a : A)
| Panic (msg : string).
Arguments Ret {A} a.
Arguments Panic {A} msg.

(** A Rust [Result<A, E>]. *)
Inductive result (A E : Type) : Type :=
| Ok (a : A)
| Err (e : E).
Arguments Ok {A E} a.
Arguments Err {A E} e.

(** What a computation returns, if it does not panic. *)
Definition returned {A : Type} (o : outcome A) : option A :=
  match o with
  | Ret a => Some a
  | Panic _ => None
  end.

(** The value of an [Ok]. *)
Definition ok_of {A E : Type} (r : result A E) : option A :=
  match r with
  | Ok a => Some a
  | Err _ => None
  end.

(** ** bounds.rs: dynamic types, [AsAny] and [QueryParameters] *)

Module Bounds.

(** The four Rust types that implement [QueryParameters]: [i32], [i64],
    [String] and [&String]. A [&dyn QueryParameters] holds one of them. *)
Inductive query_param : Type :=
| QP_i32 (n : Z)
| QP_i64 (n : Z)
| QP_String (s : string)
| QP_ref_String (s : string).

(** The concrete values a [&dyn Any] can point to in bounds.rs: one
    constructor per type with an [AsAny] impl, plus [&&dyn QueryParameters],
    the concrete type the [AsAny] impl for [&dyn QueryParameters] erases. *)
Inductive value : Type :=
| V_i8 (n : Z) | V_u8 (n : Z) | V_i16 (n : Z) | V_u16 (n : Z)
| V_i32 (n : Z) | V_u32 (n : Z) | V_i64 (n : Z) | V_u64 (n : Z)
| V_String (s : string)
| V_str_ref (s : string)
| V_NaiveDate (y m d : Z)
| V_NaiveDateTime (y mo d h mi s : Z)
| V_NaiveTime (h mi s : Z)
| V_ref_dyn_QueryParameters (q : query_param).

(** [std::any::TypeId] of those types. *)
Inductive type_id : Type :=
| T_i8 | T_u8 | T_i16 | T_u16 | T_i32 | T_u32 | T_i64 | T_u64
| T_String | T_str_ref | T_NaiveDate | T_NaiveDateTime | T_NaiveTime
| T_ref_dyn_QueryParameters.

Definition type_id_eq_dec (a b : type_id) : {a = b} + {a <> b}.
Proof. decide equality. Defined.

Definition type_id_eqb (a b : type_id) : bool :=
  if type_id_eq_dec a b then true else false.

(** [Any::type_id] of a concrete value. *)
Definition type_of (v : value) : type_id :=
  match v with
  | V_i8 _ => T_i8 | V_u8 _ => T_u8 | V_i16 _ => T_i16 | V_u16 _ => T_u16
  | V_i32 _ => T_i32 | V_u32 _ => T_u32 | V_i64 _ => T_i64 | V_u64 _ => T_u64
  | V_String _ => T_String
  | V_str_ref _ => T_str_ref
  | V_NaiveDate _ _ _ => T_NaiveDate
  | V_NaiveDateTime _ _ _ _ _ _ => T_NaiveDateTime
  | V_NaiveTime _ _ _ => T_NaiveTime
  | V_ref_dyn_QueryParameters _ => T_ref_dyn_QueryParameters
  end.

(** [<dyn Any>::downcast_ref::<T>()]: the value when its [TypeId] is [T]. *)
Definition downcast_ref (T : type_id) (a : value) : option value :=
  if type_id_eqb (type_of a) T then Some a else None.

(** [AsAny::as_any] for the primitive impls ([i8] ... [NaiveTime]): the
    value itself, erased to [&dyn Any]. *)
Definition as_any (v : value) : value := v.

(** [AsAny::as_any] for [&dyn QueryParameters<'static>]:
    [&self as &dyn Any], whose concrete type is [&&dyn QueryParameters]. *)
Definition as_any_dyn (q : query_param) : value := V_ref_dyn_QueryParameters q.

Definition bad_conversion : string := "Bad conversion of parameters".

(** The body shared by the [as_postgres_param] impls:
    [match x.as_any().downcast_ref::<T>() { Some(b) => b,
     None => panic!("Bad conversion of parameters") }]. *)
Definition downcast_or_panic (T : type_id) (x : value) : outcome value :=
  match downcast_ref T (as_any x) with
  | Some b => Ret b
  | None => Panic bad_conversion
  end.

(** [QueryParameters::as_postgres_param], one arm per impl. In the [&String]
    impl, [self : &&String] and method resolution auto-derefs to the
    [AsAny for String] impl, so the [Any] holds a [String]; the impl asks
    for [&str]. *)
Definition as_postgres_param (q : query_param) : outcome value :=
  match q with
  | QP_i32 n => downcast_or_panic T_i32 (V_i32 n)
  | QP_i64 n => downcast_or_panic T_i64 (V_i64 n)
  | QP_String s => downcast_or_panic T_String (V_String s)
  | QP_ref_String s => downcast_or_panic T_str_ref (V_String s)
  end.

(** The value a parameter holds, as a concrete value. *)
Definition wrap (q : query_param) : value :=
  match q with
  | QP_i32 n => V_i32 n
  | QP_i64 n => V_i64 n
  | QP_String s | QP_ref_String s => V_String s
  end.

(** tiberius's [ColumnData], the SQL-Server wire values. *)
Inductive column_data : Type :=
| CD_U8 (v : option Z)
| CD_I16 (v : option Z)
| CD_I32 (v : option Z)
| CD_I64 (v : option Z)
| CD_Bit (v : option bool)
| CD_String (v : option string)
| CD_Date (v : option Z)
| CD_Time (v : option Z)
| CD_DateTime2 (v : option Z).

Definition todo_msg : string := "not yet implemented".

(** [<dyn Any>::downcast_ref::<String>()], read back as the string. *)
Definition downcast_ref_String (a : value) : option string :=
  match downcast_ref T_String a with
  | Some (V_String v) => Some v
  | _ => None
  end.

(** [IntoSql::into_sql] for [&dyn QueryParameters]. The outer
    [match ... type_id() { String => .., i32 => .. }] uses the identifiers
    [String] and [i32] as binding patterns, so its first arm matches every
    [TypeId] and the [i32] arm is never reached. [(&*self).as_any()]
    resolves to the [AsAny] impl for [&dyn QueryParameters]. *)
Definition into_sql (self : query_param) : outcome column_data :=
  match downcast_ref_String (as_any_dyn self) with
  | Some v => Ret (CD_String (Some v))
  | None => Panic todo_msg
  end.

End Bounds.

(** ** lib.rs: table names *)

Module TableName.

Open Scope Z_scope.

(** A Rust [char], as its Unicode code point. *)
Definition char := Z.

(** [char::is_ascii_uppercase]: 'A' (65) to 'Z' (90). *)
Definition is_ascii_uppercase (c : char) : bool := (65 <=? c) && (c <=? 90).

(** [char::to_ascii_lowercase]. *)
Definition to_ascii_lowercase (c : char) : char :=
  if is_ascii_uppercase c then c + 32 else c.

(** ['_']. *)
Definition underscore : char := 95.

(** The [for char in struct_name.chars()] loop of
    [database_table_name_from_struct], with its mutable [index] and
    [table_name] threaded as arguments. *)
Fixpoint table_name_loop (index : Z) (table_name : list char) (chars : list char)
  : list char :=
  match chars with
  | [] => table_name
  | c :: rest =>
      if index <? 1 then
        table_name_loop (index + 1) (table_name ++ [to_ascii_lowercase c]) rest
      else if is_ascii_uppercase c then
        table_name_loop index (table_name ++ [underscore; to_ascii_lowercase c]) rest
      else
        table_name_loop index (table_name ++ [c]) rest
  end.

(** [database_table_name_from_struct]: the struct identifier, as its chars. *)
Definition database_table_name_from_struct (struct_name : list char) : list char :=
  table_name_loop 0 [] struct_name.

(** The snake-case transform as the specification words it: lowercase the
    first character; each later ASCII-uppercase character becomes ['_']
    followed by its lowercase form; every other character is kept. *)
Definition snake_case_spec (s : list char) : list char :=
  match s with
  | [] => []
  | c :: rest =>
      to_ascii_lowercase c
        :: flat_map (fun d => if is_ascii_uppercase d
                              then [underscore; to_ascii_lowercase d]
                              else [d]) rest
  end.

(** The chars of an ASCII string literal. *)
Definition chars_of (s : string) : list char :=
  map (fun a => Z.of_nat (nat_of_ascii a)) (list_ascii_of_string s).

End TableName.

(** ** The IN-clause filter *)

Module Filter.

Import Bounds.
Local Open Scope string_scope.

(** The backend tag: Postgres-style or SQL-Server-style. *)
Inductive backend : Type := Postgres | SqlServer.

(** SQL text with its placeholders kept apart from the literal text. *)
Inductive sql_piece : Type :=
| Text (s : string)
| Placeholder (pos : nat).

(** A parameterized statement: its SQL and its parameter set, in order. *)
Record statement : Type := mk_statement {
  sql : list sql_piece;
  params : list value
}.

(** Errors of the statement builder. *)
Inductive crud_error : Type :=
| EmptyInClause.

(** Decimal digits of a natural number. *)
Fixpoint digits_fuel (fuel n : nat) (acc : string) : string :=
  match fuel with
  | O => acc
  | S fuel' =>
      let acc' := String (ascii_of_nat (48 + Nat.modulo n 10)) acc in
      if Nat.ltb n 10 then acc' else digits_fuel fuel' (Nat.div n 10) acc'
  end.

Definition nat_to_string (n : nat) : string := digits_fuel (S n) n EmptyString.

(** The one placeholder-formatting function: [$i] or [@pi]. *)
Definition placeholder (b : backend) (i : nat) : string :=
  match b with
  | Postgres => "$" ++ nat_to_string i
  | SqlServer => "@p" ++ nat_to_string i
  end.

(** The SQL text of a statement for a backend. *)
Definition render (b : backend) (pieces : list sql_piece) : string :=
  fold_right (fun p acc => match p with
                           | Text s => s ++ acc
                           | Placeholder i => placeholder b i ++ acc
                           end) EmptyString pieces.

(** The placeholder positions of a statement, left to right. *)
Definition placeholders (pieces : list sql_piece) : list nat :=
  flat_map (fun p => match p with Text _ => [] | Placeholder i => [i] end) pieces.

(** [pos, pos+1, ...] for each of the values, separated by commas. *)
Fixpoint in_list (pos : nat) (values : list value) : list sql_piece :=
  match values with
  | [] => []
  | [_] => [Placeholder pos]
  | _ :: rest => Placeholder pos :: Text ", " :: in_list (S pos) rest
  end.

(** Modelled from the spec: [filter_in(table, field_name, values)] of the
    CRUD statement builder (section 4.4), which is not in the sources (only
    its [InClauseValues] bound is): [column IN (?, ?, ...)] with one
    positional placeholder per value, bound in the given order; an empty
    value sequence fails with [EmptyInClause]. *)
Definition filter_in (table field_name : string) (values : list value)
  : result statement crud_error :=
  match values with
  | [] => Err EmptyInClause
  | _ :: _ =>
      Ok (mk_statement
            ([Text ("SELECT * FROM " ++ table ++ " WHERE " ++ field_name ++ " IN (")]
               ++ in_list 1 values ++ [Text ")"])
            values)
  end.

End Filter.

(** ** lib.rs: the row mapper and [find_by_id] *)

Module RowMapper.

Import Bounds.
Local Open Scope string_scope.

(** The Postgres column types ([postgres_types::Type]) of the model. *)
Inductive pg_type : Type :=
| Pg_Bool | Pg_Char | Pg_Int2 | Pg_Int4 | Pg_Int8 | Pg_Oid
| Pg_Text | Pg_Varchar | Pg_Bpchar | Pg_Name | Pg_Unknown
| Pg_Date | Pg_Timestamp | Pg_Time.

(** The [Debug] text of a [Type]: the name of its [Inner] variant. *)
Definition pg_type_debug (t : pg_type) : string :=
  match t with
  | Pg_Bool => "Bool" | Pg_Char => "Char" | Pg_Int2 => "Int2"
  | Pg_Int4 => "Int4" | Pg_Int8 => "Int8" | Pg_Oid => "Oid"
  | Pg_Text => "Text" | Pg_Varchar => "Varchar" | Pg_Bpchar => "Bpchar"
  | Pg_Name => "Name" | Pg_Unknown => "Unknown" | Pg_Date => "Date"
  | Pg_Timestamp => "Timestamp" | Pg_Time => "Time"
  end.

(** [<T as FromSql>::accepts(ty)] for the Rust types of the model: [i8]
    reads CHAR, [i16] INT2, [i32] INT4, [u32] OID, [i64] INT8, [String] and
    [&str] the text types, and the chrono types DATE, TIMESTAMP and TIME;
    [u8], [u16] and [u64] have no [FromSql] impl. *)
Definition accepts (T : type_id) (ty : pg_type) : bool :=
  match T, ty with
  | T_i8, Pg_Char | T_i16, Pg_Int2 | T_i32, Pg_Int4 | T_u32, Pg_Oid
  | T_i64, Pg_Int8 => true
  | (T_String | T_str_ref), (Pg_Text | Pg_Varchar | Pg_Bpchar | Pg_Name | Pg_Unknown) => true
  | T_NaiveDate, Pg_Date | T_NaiveDateTime, Pg_Timestamp | T_NaiveTime, Pg_Time => true
  | _, _ => false
  end.

(** [std::any::type_name::<T>()]. *)
Definition rust_type_name (T : type_id) : string :=
  match T with
  | T_i8 => "i8" | T_u8 => "u8" | T_i16 => "i16" | T_u16 => "u16"
  | T_i32 => "i32" | T_u32 => "u32" | T_i64 => "i64" | T_u64 => "u64"
  | T_String => "alloc::string::String"
  | T_str_ref => "&str"
  | T_NaiveDate => "chrono::naive::date::NaiveDate"
  | T_NaiveDateTime => "chrono::naive::datetime::NaiveDateTime"
  | T_NaiveTime => "chrono::naive::time::NaiveTime"
  | T_ref_dyn_QueryParameters => "&dyn canyon_crud::bounds::QueryParameters"
  end.

(** A column of a result row: its name and its Postgres type. *)
Record column : Type := mk_column {
  col_name : string;
  col_type : pg_type
}.

(** A result row of tokio-postgres: its columns in order, each with its
    (non-NULL) content as a value: integers at the column's width, text as
    a [String]. *)
Definition row := list (column * value).

(** [FromSql::from_sql] of a cell at an accepted type [T]: the cell's
    content read at [T] (a text cell read as [&str] borrows its text). *)
Definition from_sql (T : type_id) (v : value) : value :=
  match T, v with
  | T_str_ref, V_String s => V_str_ref s
  | _, _ => v
  end.

(** [u8::to_ascii_lowercase]. *)
Definition byte_to_ascii_lowercase (a : ascii) : ascii :=
  let n := nat_of_ascii a in
  if (Nat.leb 65 n && Nat.leb n 90)%bool then ascii_of_nat (n + 32) else a.

(** The byte-wise comparison of [<[u8]>::eq_ignore_ascii_case]. *)
Fixpoint bytes_eq_ignore_ascii_case (a b : string) : bool :=
  match a, b with
  | EmptyString, EmptyString => true
  | String x a', String y b' =>
      Ascii.eqb (byte_to_ascii_lowercase x) (byte_to_ascii_lowercase y)
      && bytes_eq_ignore_ascii_case a' b'
  | _, _ => false
  end.

(** [str::eq_ignore_ascii_case]: same length and equal bytes up to ASCII
    case. *)
Definition eq_ignore_ascii_case (a b : string) : bool :=
  Nat.eqb (String.length a) (String.length b) && bytes_eq_ignore_ascii_case a b.

(** [columns.iter().position(p)], with the element found. *)
Fixpoint position {A : Type} (p : A -> bool) (l : list A) : option (nat * A) :=
  match l with
  | [] => None
  | x :: rest =>
      if p x then Some (0%nat, x)
      else option_map (fun '(i, y) => (S i, y)) (position p rest)
  end.

(** [<str as RowIndex>::__idx]: the first column of exactly that name, else
    the first column whose name equals it up to ASCII case. *)
Definition column_idx (r : row) (name : string) : option (nat * (column * value)) :=
  match position (fun c => String.eqb (col_name (fst c)) name) r with
  | Some found => Some found
  | None => position (fun c => eq_ignore_ascii_case (col_name (fst c)) name) r
  end.

(** The errors [Row::try_get] returns: [Error::column(name)] when no
    column matches, [Error::from_sql(WrongType, idx)] when the column's type
    is not one [T] accepts. *)
Inductive pg_error : Type :=
| Error_Column (name : string)
| Error_FromSql_WrongType (idx : nat) (postgres : pg_type) (rust : type_id).

(** [Row::try_get::<&str, T>(name)]. *)
Definition try_get (r : row) (name : string) (T : type_id) : result value pg_error :=
  match column_idx r name with
  | None => Err (Error_Column name)
  | Some (idx, (col, v)) =>
      if accepts T (col_type col) then Ok (from_sql T v)
      else Err (Error_FromSql_WrongType idx (col_type col) T)
  end.

Definition dq : string := String (ascii_of_nat 34) EmptyString.

Definition hex_digit (d : nat) : ascii :=
  ascii_of_nat (if Nat.ltb d 10 then 48 + d else 87 + d).

(** [char::escape_debug] as [<str as Debug>] applies it, on one byte: the
    ASCII escapes, [\u{..}] for the other ASCII control characters. A
    non-ASCII byte is copied: the model's strings are the UTF-8 bytes, and
    printable non-ASCII characters are printed as they are. *)
Definition escape_debug_byte (a : ascii) : string :=
  let n := nat_of_ascii a in
  if Nat.eqb n 0 then "\0"
  else if Nat.eqb n 9 then "\t"
  else if Nat.eqb n 10 then "\n"
  else if Nat.eqb n 13 then "\r"
  else if Nat.eqb n 34 then String (ascii_of_nat 92) dq
  else if Nat.eqb n 92 then "\\"
  else if (Nat.ltb n 32 || Nat.eqb n 127)%bool then
    "\u{" ++ (if Nat.ltb n 16 then String (hex_digit n) EmptyString
              else String (hex_digit (Nat.div n 16))
                     (String (hex_digit (Nat.modulo n 16)) EmptyString)) ++ "}"
  else String a EmptyString.

Fixpoint escape_debug (s : string) : string :=
  match s with
  | EmptyString => EmptyString
  | String a s' => escape_debug_byte a ++ escape_debug s'
  end.

(** [<str as Debug>::fmt]. *)
Definition debug_str (s : string) : string := dq ++ escape_debug s ++ dq.

(** [<tokio_postgres::Error as Debug>::fmt]: the [kind] and [cause] fields. *)
Definition debug_error (e : pg_error) : string :=
  match e with
  | Error_Column name =>
      "Error { kind: Column(" ++ debug_str name ++ "), cause: None }"
  | Error_FromSql_WrongType idx ty T =>
      "Error { kind: FromSql(" ++ Filter.nat_to_string idx
      ++ "), cause: Some(WrongType { postgres: " ++ pg_type_debug ty
      ++ ", rust: " ++ debug_str (rust_type_name T) ++ " }) }"
  end.

(** The panic message of [Result::expect(msg)] on [Err(e)]:
    [format!("{msg}: {e:?}")]. *)
Definition expect_panic (msg : string) (e : pg_error) : string :=
  msg ++ ": " ++ debug_error e.

(** A struct field: its identifier and its Rust type. *)
Definition field := (string * type_id)%type.

(** An entity: its fields' identifiers with their values, in declared order. *)
Definition entity := list (string * value).

(** The message of [.expect(format!("Failed to retrieve the {} field", name))]. *)
Definition expect_msg (name : string) : string :=
  "Failed to retrieve the " ++ name ++ " field".

(** The generated [RowMapper::deserialize]: the struct expression
    [Self { f1: row.try_get("f1").expect(..), ... }] evaluates its fields in
    declared order; a failing [try_get] panics in [expect]. *)
Fixpoint deserialize (fields : list field) (r : row) : outcome entity :=
  match fields with
  | [] => Ret []
  | (ident, T) :: rest =>
      match try_get r ident T with
      | Ok v =>
          match deserialize rest r with
          | Ret e => Ret ((ident, v) :: e)
          | Panic m => Panic m
          end
      | Err e => Panic (expect_panic (expect_msg ident) e)
      end
  end.

(** Modelled from the spec: [DatabaseResult::as_response::<T>()] of
    canyon_crud, which is not in the sources: the rows the query returned,
    each turned into an entity by the Row Mapper ([RowMapper::deserialize]),
    in order. *)
Fixpoint as_response (fields : list field) (rows : list row) : outcome (list entity) :=
  match rows with
  | [] => Ret []
  | r :: rest =>
      match deserialize fields r with
      | Ret e =>
          match as_response fields rest with
          | Ret es => Ret (e :: es)
          | Panic m => Panic m
          end
      | Panic m => Panic m
      end
  end.

Definition index_msg : string := "index out of bounds: the len is 0 but the index is 0".

(** The generated [find_by_id]:
    [__find_by_id(table_name, id).await.as_response::<T>()[0].clone()],
    given the rows the query returned. *)
Definition find_by_id (fields : list field) (rows : list row) : outcome entity :=
  match as_response fields rows with
  | Ret es =>
      match es with
      | e :: _ => Ret e
      | [] => Panic index_msg
      end
  | Panic m => Panic m
  end.

End RowMapper.

(** ** lib.rs: the Canyon register *)

Module Register.

(** [CANYON_REGISTER], the vector of registered entity names. *)
Definition canyon_register := list string.

(** The registration step of [canyon_managed]:
    [CANYON_REGISTER.push(ty.to_string())]. *)
Definition canyon_managed (reg : canyon_register) (ty : string) : canyon_register :=
  reg ++ [ty].

(** A sequence of [canyon_managed] expansions, in order. *)
Definition register_all (reg : canyon_register) (tys : list string) : canyon_register :=
  fold_left canyon_managed tys reg.

End Register.


(** ** lib.rs: the [canyon_managed] attribute and the [CanyonMapper] derive *)

Module Macros.

Import Bounds RowMapper.
Local Open Scope string_scope.

(** [syn::Visibility]. *)
Inductive visibility : Type :=
| Vis_Public
| Vis_Crate
| Vis_Restricted (path : string)
| Vis_Inherited.

(** A [syn::Field]: its visibility, its identifier ([None] for a field of a
    tuple struct) and its type. *)
Record syn_field : Type := mk_syn_field {
  field_vis : visibility;
  field_ident : option string;
  field_ty : type_id
}.

(** [syn::Data]. *)
Inductive syn_data : Type :=
| Data_Struct (fields : list syn_field)
| Data_Enum
| Data_Union.

(** The parts of [syn::DeriveInput] the macros read (identifiers are ASCII
    strings here). *)
Record derive_input : Type := mk_derive_input {
  ast_vis : visibility;
  ast_ident : string;
  ast_data : syn_data
}.

Definition not_struct_msg : string := "Field names can only be derived for structs".
Definition unwrap_none_msg : string := "called `Option::unwrap()` on a `None` value".

(** [field.ident.as_ref().unwrap().clone()]. *)
Definition unwrap_ident (o : option string) : outcome string :=
  match o with
  | Some i => Ret i
  | None => Panic unwrap_none_msg
  end.

(** [.iter().map(f).collect::<Vec<_>>()] with a [f] that may panic: the
    elements are mapped in order and the first panic ends it. *)
Fixpoint map_collect {A B : Type} (f : A -> outcome B) (l : list A) : outcome (list B) :=
  match l with
  | [] => Ret []
  | x :: rest =>
      match f x with
      | Ret y =>
          match map_collect f rest with
          | Ret ys => Ret (y :: ys)
          | Panic m => Panic m
          end
      | Panic m => Panic m
      end
  end.

(** [filter_fields]: each field's visibility and identifier. *)
Definition filter_fields (fields : list syn_field) : outcome (list (visibility * string)) :=
  map_collect (fun field =>
                 match unwrap_ident (field_ident field) with
                 | Ret i => Ret (field_vis field, i)
                 | Panic m => Panic m
                 end) fields.

(** [fields_with_types]: each field's visibility, identifier and type. *)
Definition fields_with_types (fields : list syn_field)
  : outcome (list (visibility * string * type_id)) :=
  map_collect (fun field =>
                 match unwrap_ident (field_ident field) with
                 | Ret i => Ret (field_vis field, i, field_ty field)
                 | Panic m => Panic m
                 end) fields.

(** [match ast.data { syn::Data::Struct(ref s) => &s.fields,
    _ => panic!("Field names can only be derived for structs") }]. *)
Definition struct_fields (d : syn_data) : outcome (list syn_field) :=
  match d with
  | Data_Struct fs => Ret fs
  | _ => Panic not_struct_msg
  end.

(** What [implement_row_mapper_for_type] generates: the visibility of
    [find_all] and [find_by_id], the table name they query, and the fields
    of [RowMapper::deserialize], each with the type the struct declares
    (the type [row.try_get] is inferred at). *)
Record row_mapper_tokens : Type := mk_row_mapper_tokens {
  rm_vis : visibility;
  rm_table_name : list TableName.char;
  rm_fields : list field
}.

(** [implement_row_mapper_for_type], the [CanyonMapper] derive. *)
Definition implement_row_mapper_for_type (ast : derive_input) : outcome row_mapper_tokens :=
  let table_name := TableName.database_table_name_from_struct
                      (TableName.chars_of (ast_ident ast)) in
  match struct_fields (ast_data ast) with
  | Ret fs =>
      match filter_fields fs with
      | Ret fields =>
          Ret (mk_row_mapper_tokens (ast_vis ast) table_name
                 (combine (map snd fields) (map field_ty fs)))
      | Panic m => Panic m
      end
  | Panic m => Panic m
  end.

(** The [pub struct] that [canyon_managed] emits in place of the annotated
    one: its name and its fields (visibility, identifier, type), in order.
    The emitted struct is always [pub]. *)
Record struct_tokens : Type := mk_struct_tokens {
  st_ident : string;
  st_fields : list (visibility * string * type_id)
}.

(** [canyon_managed], with the [CANYON_REGISTER] it pushes to threaded
    through: it reads the fields first (panicking on a non-struct or a
    field without identifier), then pushes the struct's name, then emits
    the struct with every field under the struct's own visibility [#vis].
    The [println!] is not modelled. *)
Definition canyon_managed_macro (reg : Register.canyon_register) (ast : derive_input)
  : Register.canyon_register * outcome struct_tokens :=
  match struct_fields (ast_data ast) with
  | Ret fs =>
      match fields_with_types fs with
      | Ret fields =>
          (Register.canyon_managed reg (ast_ident ast),
           Ret (mk_struct_tokens (ast_ident ast)
                  (map (fun '(_, ident, ty) => (ast_vis ast, ident, ty)) fields)))
      | Panic m => (reg, Panic m)
      end
  | Panic m => (reg, Panic m)
  end.

(** A struct the macros accept: a struct whose fields all have names. *)
Definition named_struct (ast : derive_input) : Prop :=
  match ast_data ast with
  | Data_Struct fs => Forall (fun f => field_ident f <> None) fs
  | _ => False
  end.

(** The panic message of the macros on an input that is not a named
    struct. *)
Definition macro_failure (d : syn_data) : string :=
  match d with
  | Data_Struct _ => unwrap_none_msg
  | _ => not_struct_msg
  end.

(** Sample inputs: a named struct and a tuple struct. *)
Definition league_ast : derive_input :=
  mk_derive_input Vis_Public "League"
    (Data_Struct [mk_syn_field Vis_Inherited (Some "id") T_i32;
                  mk_syn_field (Vis_Restricted "crate") (Some "name") T_String]).

Definition tuple_ast : derive_input :=
  mk_derive_input Vis_Public "Pair"
    (Data_Struct [mk_syn_field Vis_Public None T_i32]).

End Macros.

(** * Properties *)

Import Bounds.

(** ** Parameter downcasts *)

(** C1 (code bug): the spec asks that recovering a parameter at its own
    type round-trips. The [String] impl downcasts its [Any] to [String] and
    returns the text, but its [&String] sibling downcasts an [Any] holding a
    [String] to [&str] (the defect of C9), so the string "league" passed as
    [&String] panics with "Bad conversion of parameters". *)
Theorem as_postgres_param_ref_String_league :
  as_postgres_param (QP_String "league") = Ret (V_String "league") /\
  as_postgres_param (QP_ref_String "league") = Panic bad_conversion.
Proof. split; reflexivity. Qed.

(** C9: the [&String] impl of [as_postgres_param] asks for [&str] from an
    [Any] holding a [String], so it panics with "Bad conversion of
    parameters" on every input. *)
Theorem as_postgres_param_ref_String_panics :
  forall s, as_postgres_param (QP_ref_String s) = Panic bad_conversion.
Proof. intro s. reflexivity. Qed.

(** ** The SQL-Server conversion *)

(** C2 (amended): only [i32], [i64], [String] and [&String] implement
    [QueryParameters], and [into_sql] has match arms only for [String]
    (to [ColumnData::String]) and [i32] (to [ColumnData::I32]): it never
    yields any other wire value, and an [i64] parameter gets no 64-bit wire
    value but reaches [todo!()]. *)
Theorem into_sql_only_string_and_i32 :
  (forall n, into_sql (QP_i64 n) = Panic todo_msg) /\
  (forall q c, into_sql q = Ret c ->
               (exists s, c = CD_String (Some s)) \/ (exists n, c = CD_I32 (Some n))).
Proof.
  split.
  - intro n. reflexivity.
  - intros q c H. unfold into_sql in H.
    destruct (downcast_ref_String (as_any_dyn q)) as [s|]; inversion H.
    left. exists s. reflexivity.
Qed.

(** C2 (counterexample): the 64-bit integer 5 does not become the 64-bit
    wire integer 5. *)
Lemma into_sql_i64_not_lossless :
  into_sql (QP_i64 5) <> Ret (CD_I64 (Some 5%Z)).
Proof. discriminate. Qed.

(** ** Table names *)

Section TableNames.

Import TableName.
Local Open Scope Z_scope.

Let later_char (d : char) : list char :=
  if is_ascii_uppercase d then [underscore; to_ascii_lowercase d] else [d].

Lemma table_name_loop_after_first :
  forall rest acc index, 1 <= index ->
  table_name_loop index acc rest = acc ++ flat_map later_char rest.
Proof.
  induction rest as [|c rest IH]; intros acc index Hi; simpl.
  - rewrite app_nil_r. reflexivity.
  - assert (Hlt : (index <? 1) = false) by (apply Z.ltb_ge; lia).
    rewrite Hlt. unfold later_char.
    destruct (is_ascii_uppercase c); rewrite IH by exact Hi;
      rewrite <- app_assoc; reflexivity.
Qed.

Lemma database_table_name_eq_spec :
  forall s, database_table_name_from_struct s = snake_case_spec s.
Proof.
  intros [|c rest]; [reflexivity|].
  unfold database_table_name_from_struct. simpl.
  rewrite table_name_loop_after_first by lia. reflexivity.
Qed.

(** C3: the table name is the snake-case transform of the struct name:
    the first character lowercased, each later ASCII-uppercase character
    replaced by ['_'] and its lowercase form, every other character kept;
    "LeagueTable" gives "league_table". *)
Theorem database_table_name_snake_case :
  (forall s, database_table_name_from_struct s = snake_case_spec s) /\
  database_table_name_from_struct (chars_of "LeagueTable") = chars_of "league_table".
Proof.
  split; [exact database_table_name_eq_spec | reflexivity].
Qed.

Lemma lowercase_not_uppercase :
  forall c, is_ascii_uppercase (to_ascii_lowercase c) = false.
Proof.
  intro c. unfold to_ascii_lowercase.
  destruct (is_ascii_uppercase c) eqn:Hc; unfold is_ascii_uppercase in *.
  - apply andb_true_iff in Hc as [H1 H2].
    apply Z.leb_le in H1. apply Z.leb_le in H2.
    apply andb_false_iff. right. apply Z.leb_gt. lia.
  - exact Hc.
Qed.

Lemma snake_case_spec_no_uppercase :
  forall s, Forall (fun c => is_ascii_uppercase c = false) (snake_case_spec s).
Proof.
  intros [|c rest]; simpl; constructor.
  - apply lowercase_not_uppercase.
  - induction rest as [|d rest IH]; simpl; [constructor|].
    apply Forall_app. split; [|exact IH].
    destruct (is_ascii_uppercase d) eqn:Hd; repeat constructor; auto.
    apply lowercase_not_uppercase.
Qed.

Lemma snake_case_spec_id :
  forall s, Forall (fun c => is_ascii_uppercase c = false) s -> snake_case_spec s = s.
Proof.
  intros [|c rest] H; [reflexivity|].
  inversion H as [|? ? Hc Hrest]; subst. simpl.
  unfold to_ascii_lowercase. rewrite Hc. f_equal.
  clear H Hc. induction Hrest as [|d rest Hd _ IH]; [reflexivity|].
  simpl. rewrite Hd. simpl. rewrite IH. reflexivity.
Qed.

End TableNames.

(** C10: the table-name transform is idempotent, since its output holds no
    ASCII-uppercase character. *)
Theorem database_table_name_idempotent :
  forall s, TableName.database_table_name_from_struct
              (TableName.database_table_name_from_struct s)
            = TableName.database_table_name_from_struct s.
Proof.
  intro s. rewrite !database_table_name_eq_spec.
  apply snake_case_spec_id, snake_case_spec_no_uppercase.
Qed.

(** ** Row mapping *)

Section RowMapping.

Import RowMapper.
Local Open Scope string_scope.



(** A row [deserialize] maps to an entity. *)
Definition mappable (fields : list field) (r : row) : Prop :=
  exists e, deserialize fields r = Ret e.

Lemma as_response_first_panic :
  forall fields pre r post m,
  Forall (mappable fields) pre -> deserialize fields r = Panic m ->
  as_response fields (pre ++ r :: post) = Panic m.
Proof.
  intros fields pre r post m Hpre Hr. induction Hpre as [|r' pre [e He] _ IH].
  - simpl. rewrite Hr. reflexivity.
  - simpl. rewrite He, IH. reflexivity.
Qed.

Lemma as_response_all_mapped :
  forall fields rows, Forall (mappable fields) rows ->
  exists es, as_response fields rows = Ret es.
Proof.
  intros fields rows H. induction H as [|r rows [e He] _ [es Hes]].
  - exists []. reflexivity.
  - exists (e :: es). simpl. rewrite He, Hes. reflexivity.
Qed.



(** C7 (amended): [find_by_id] returns the entity, not a result: with no
    returned row it panics on the index [[0]]; when it returns an entity,
    that is the first row mapped by [deserialize], and it does return it
    when every row maps; and any row [deserialize] cannot map makes it
    panic, with the message of the first such row. No error value reaches
    the caller. *)
Theorem find_by_id_panics :
  (forall fields, find_by_id fields [] = Panic index_msg) /\
  (forall fields r rest e, find_by_id fields (r :: rest) = Ret e ->
                           deserialize fields r = Ret e) /\
  (forall fields r rest e, deserialize fields r = Ret e ->
                           Forall (mappable fields) rest ->
                           find_by_id fields (r :: rest) = Ret e) /\
  (forall fields pre r post m, Forall (mappable fields) pre ->
                               deserialize fields r = Panic m ->
                               find_by_id fields (pre ++ r :: post) = Panic m).
Proof.
  split; [reflexivity|]. split; [|split].
  - intros fields r rest e H. unfold find_by_id in H. simpl in H.
    destruct (deserialize fields r) as [e'|m]; [|discriminate].
    destruct (as_response fields rest); inversion H; reflexivity.
  - intros fields r rest e Hr Hrest. unfold find_by_id. simpl. rewrite Hr.
    destruct (as_response_all_mapped fields rest Hrest) as [es Hes].
    rewrite Hes. reflexivity.
  - intros fields pre r post m Hpre Hr. unfold find_by_id.
    rewrite (as_response_first_panic fields pre r post m Hpre Hr). reflexivity.
Qed.

(** C7 (counterexample): when the query returns no row, [find_by_id]
    panics rather than returning an error kind. *)
Lemma find_by_id_no_row_panics :
  find_by_id [("id", T_i32); ("name", T_String)] []
  = Panic "index out of bounds: the len is 0 but the index is 0".
Proof. reflexivity. Qed.

End RowMapping.

(** ** The register *)

(** C8 (amended): each [canyon_managed] expansion pushes the entity name
    onto [CANYON_REGISTER]; a sequence of registrations appends the names
    in call order, one entry per call, repeated names included. *)
Theorem register_all_appends :
  forall reg tys, Register.register_all reg tys = reg ++ tys.
Proof.
  intros reg tys. revert reg.
  induction tys as [|ty tys IH]; intro reg; simpl.
  - rewrite app_nil_r. reflexivity.
  - rewrite IH. unfold Register.canyon_managed. rewrite <- app_assoc. reflexivity.
Qed.

(** C8 (counterexample): registering "League" twice leaves two entries,
    not the state of registering it once. *)
Lemma register_twice_duplicates :
  Register.register_all [] ["League"; "League"]%string = ["League"; "League"]%string /\
  Register.register_all [] ["League"; "League"]%string <> Register.register_all [] ["League"]%string.
Proof. split; [reflexivity | discriminate]. Qed.

(** ** The IN-clause filter *)

Section InClause.

Import Filter.
Local Open Scope list_scope.

Lemma placeholders_app :
  forall a b, placeholders (a ++ b) = placeholders a ++ placeholders b.
Proof. intros a b. unfold placeholders. apply flat_map_app. Qed.

Lemma placeholders_in_list :
  forall values pos, placeholders (in_list pos values) = seq pos (List.length values).
Proof.
  induction values as [|v values IH]; intro pos; [reflexivity|].
  destruct values as [|w values]; [reflexivity|].
  change (placeholders (Placeholder pos :: Text ", " :: in_list (S pos) (w :: values))
          = pos :: seq (S pos) (List.length (w :: values))).
  rewrite <- IH. reflexivity.
Qed.

(** C6: [filter_in] with no value fails with [EmptyInClause]; with [n]
    values it yields a statement whose placeholders are the positions
    [1 .. n] in ascending order and whose parameter set is the values, in
    the order given. *)
Theorem filter_in_placeholders :
  (forall table field_name, filter_in table field_name [] = Err EmptyInClause) /\
  (forall table field_name v vs,
      exists st, filter_in table field_name (v :: vs) = Ok st /\
                 placeholders (sql st) = seq 1 (List.length (v :: vs)) /\
                 params st = v :: vs).
Proof.
  split; [reflexivity|].
  intros table field_name v vs. eexists. split; [reflexivity|]. split; [|reflexivity].
  cbn [sql]. rewrite !placeholders_app, placeholders_in_list.
  simpl. rewrite app_nil_r. reflexivity.
Qed.

End InClause.

(** * Further properties of the code *)

(** ** Table names *)

Section TableNameLaws.

Import TableName.
Local Open Scope Z_scope.

Let later_char (d : char) : list char :=
  if is_ascii_uppercase d then [underscore; to_ascii_lowercase d] else [d].

Lemma lowercase_of_non_uppercase :
  forall c, is_ascii_uppercase c = false -> to_ascii_lowercase c = c.
Proof. intros c H. unfold to_ascii_lowercase. rewrite H. reflexivity. Qed.

(** The table name has one character per character of the struct name,
    plus one underscore per ASCII-uppercase character after the first. *)
Theorem database_table_name_length :
  forall s, List.length (database_table_name_from_struct s)
            = (List.length s + List.length (filter is_ascii_uppercase (tl s)))%nat.
Proof.
  intros [|c rest]; [reflexivity|].
  rewrite database_table_name_eq_spec. simpl. f_equal.
  induction rest as [|d rest IH]; [reflexivity|].
  simpl. destruct (is_ascii_uppercase d); simpl; rewrite IH; lia.
Qed.

(** The table name never contains an ASCII-uppercase character. *)
Theorem database_table_name_lowercase :
  forall s, Forall (fun c => is_ascii_uppercase c = false)
                   (database_table_name_from_struct s).
Proof.
  intro s. rewrite database_table_name_eq_spec. apply snake_case_spec_no_uppercase.
Qed.

(** Joining two names: the table name of [x ++ y], for a non-empty [x], is
    the table name of [x], then an underscore when [y] starts with an
    ASCII-uppercase character, then the table name of [y]
    ("League" ++ "Table" gives "league" ++ "_" ++ "table"). *)
Theorem database_table_name_app :
  forall x y, x <> [] ->
  database_table_name_from_struct (x ++ y)
  = database_table_name_from_struct x
    ++ (match y with
        | c :: _ => if is_ascii_uppercase c then [underscore] else []
        | [] => []
        end)
    ++ database_table_name_from_struct y.
Proof.
  intros [|a x] y Hx; [congruence|].
  rewrite !database_table_name_eq_spec. simpl.
  rewrite flat_map_app. f_equal. f_equal.
  destruct y as [|b y]; [reflexivity|]. simpl.
  destruct (is_ascii_uppercase b) eqn:Hb; [reflexivity|].
  rewrite (lowercase_of_non_uppercase b Hb). reflexivity.
Qed.

(** Distinct struct names share a table name: after the first character,
    an ASCII-uppercase letter and an underscore followed by its lowercase
    form give the same table name ("LeagueTable" and "League_table" both
    give "league_table"). *)
Theorem database_table_name_collision :
  forall x c s, x <> [] -> is_ascii_uppercase c = true ->
  database_table_name_from_struct (x ++ c :: s)
  = database_table_name_from_struct (x ++ underscore :: to_ascii_lowercase c :: s).
Proof.
  intros [|a x] c s Hx Hc; [congruence|].
  rewrite !database_table_name_eq_spec. simpl. f_equal.
  rewrite !flat_map_app. f_equal. simpl.
  rewrite Hc, lowercase_not_uppercase. reflexivity.
Qed.

End TableNameLaws.

Lemma database_table_name_collision_witness :
  TableName.chars_of "LeagueTable" <> TableName.chars_of "League_table" /\
  TableName.database_table_name_from_struct (TableName.chars_of "LeagueTable")
  = TableName.database_table_name_from_struct (TableName.chars_of "League_table").
Proof.
  split; [discriminate|].
  apply (database_table_name_collision (TableName.chars_of "League") 84%Z
           (TableName.chars_of "able")); [discriminate | reflexivity].
Defined.

Lemma database_table_name_app_witness :
  TableName.database_table_name_from_struct
    (TableName.chars_of "League" ++ TableName.chars_of "Table")
  = TableName.database_table_name_from_struct (TableName.chars_of "League")
    ++ [TableName.underscore]
    ++ TableName.database_table_name_from_struct (TableName.chars_of "Table").
Proof.
  apply (database_table_name_app (TableName.chars_of "League")
           (TableName.chars_of "Table")); discriminate.
Defined.

(** ** Row mapping *)

Section RowColumns.

Import RowMapper.

Lemma option_map_snd_shift :
  forall {A : Type} (o : option (nat * A)),
  option_map snd (option_map (fun '(i, y) => (S i, y)) o) = option_map snd o.
Proof. intros A [[i y]|]; reflexivity. Qed.

Lemma position_app_some :
  forall {A : Type} (p : A -> bool) l l2 x,
  position p l = Some x -> position p (l ++ l2) = Some x.
Proof.
  intros A p l l2. induction l as [|a l IH]; intros x H; [discriminate|].
  simpl in *. destruct (p a); [exact H|].
  destruct (position p l) as [y|] eqn:E; [|discriminate].
  rewrite (IH y eq_refl). exact H.
Qed.

Lemma position_exists :
  forall {A : Type} (p : A -> bool) l x,
  In x l -> p x = true -> exists y, position p l = Some y.
Proof.
  intros A p l x. induction l as [|a l IH]; intros Hin Hp; [destruct Hin|].
  simpl. destruct (p a) eqn:Ea; [eexists; reflexivity|].
  destruct Hin as [<-|Hin]; [congruence|].
  destruct (IH Hin Hp) as [y Hy]. rewrite Hy. eexists. reflexivity.
Qed.

Lemma position_skip :
  forall {A : Type} (p : A -> bool) l1 l2 x, p x = false ->
  option_map snd (position p (l1 ++ x :: l2)) = option_map snd (position p (l1 ++ l2)).
Proof.
  intros A p l1 l2 x Hx. induction l1 as [|a l1 IH]; simpl.
  - rewrite Hx, option_map_snd_shift. reflexivity.
  - destruct (p a); [reflexivity|]. rewrite !option_map_snd_shift. exact IH.
Qed.

Lemma position_swap :
  forall {A : Type} (p : A -> bool) l1 l2 x1 x2,
  (p x1 = false \/ p x2 = false) ->
  option_map snd (position p (l1 ++ x1 :: x2 :: l2))
  = option_map snd (position p (l1 ++ x2 :: x1 :: l2)).
Proof.
  intros A p l1 l2 x1 x2 Hx. induction l1 as [|a l1 IH]; simpl.
  - destruct (p x1) eqn:E1, (p x2) eqn:E2;
      [destruct Hx; discriminate | | | ];
      destruct (position p l2) as [[i y]|]; reflexivity.
  - destruct (p a); [reflexivity|]. rewrite !option_map_snd_shift. exact IH.
Qed.

(** The ASCII-lowercased bytes of a string. *)
Fixpoint lower_string (s : string) : string :=
  match s with
  | EmptyString => EmptyString
  | String a s' => String (byte_to_ascii_lowercase a) (lower_string s')
  end.

Lemma eq_ignore_ascii_case_lower :
  forall a b, eq_ignore_ascii_case a b = String.eqb (lower_string a) (lower_string b).
Proof.
  unfold eq_ignore_ascii_case.
  induction a as [|x a IH]; intros [|y b]; try reflexivity.
  simpl. rewrite <- IH.
  destruct (Ascii.eqb (byte_to_ascii_lowercase x) (byte_to_ascii_lowercase y));
    simpl; [reflexivity|].
  destruct (Nat.eqb (String.length a) (String.length b)); reflexivity.
Qed.

Lemma eqb_eq_ignore_ascii_case :
  forall a b, String.eqb a b = true -> eq_ignore_ascii_case a b = true.
Proof.
  intros a b H. apply String.eqb_eq in H. subst.
  rewrite eq_ignore_ascii_case_lower. apply String.eqb_refl.
Qed.

Lemma eq_ignore_ascii_case_trans :
  forall a b n, eq_ignore_ascii_case a n = true -> eq_ignore_ascii_case b n = true ->
  eq_ignore_ascii_case a b = true.
Proof.
  intros a b n. rewrite !eq_ignore_ascii_case_lower, !String.eqb_eq. congruence.
Qed.

Lemma column_idx_snd :
  forall r n, option_map snd (column_idx r n)
  = match option_map snd (position (fun c => String.eqb (col_name (fst c)) n) r) with
    | Some x => Some x
    | None => option_map snd (position (fun c => eq_ignore_ascii_case (col_name (fst c)) n) r)
    end.
Proof.
  intros r n. unfold column_idx.
  destruct (position (fun c => String.eqb (col_name (fst c)) n) r) as [[i x]|]; reflexivity.
Qed.

(** What [try_get] returns on success depends only on the column found,
    not on its index. *)
Lemma try_get_ok_of_ext :
  forall r r' n T, option_map snd (column_idx r n) = option_map snd (column_idx r' n) ->
  ok_of (try_get r n T) = ok_of (try_get r' n T).
Proof.
  intros r r' n T H. unfold try_get.
  destruct (column_idx r n) as [[i [c v]]|], (column_idx r' n) as [[i' [c' v']]|];
    simpl in H; try discriminate; [|reflexivity].
  injection H as Hc Hv. rewrite <- Hc, <- Hv. destruct (accepts T (col_type c)); reflexivity.
Qed.

Lemma deserialize_fields_ext :
  forall fields r r',
  Forall (fun f => try_get r (fst f) (snd f) = try_get r' (fst f) (snd f)) fields ->
  deserialize fields r = deserialize fields r'.
Proof.
  intros fields r r' H. induction H as [|[ident T] rest Hf _ IH]; [reflexivity|].
  simpl in *. rewrite Hf, IH. reflexivity.
Qed.

Lemma deserialize_returned_ext :
  forall fields r r',
  Forall (fun f => ok_of (try_get r (fst f) (snd f)) = ok_of (try_get r' (fst f) (snd f))) fields ->
  returned (deserialize fields r) = returned (deserialize fields r').
Proof.
  intros fields r r' H. induction H as [|[ident T] rest Hf _ IH]; [reflexivity|].
  simpl in *.
  destruct (try_get r ident T) as [v|e], (try_get r' ident T) as [v'|e'];
    simpl in Hf; try discriminate; [|reflexivity].
  injection Hf as <-.
  destruct (deserialize rest r), (deserialize rest r'); simpl in *; congruence.
Qed.

(** Columns after those a row mapping finds by exact name change nothing:
    when every declared field has a column of exactly its name in the row,
    [deserialize] gives the same result on the row with any further columns
    appended, including columns whose names differ from a field's only in
    ASCII case. *)
Theorem deserialize_extra_columns :
  forall fields r r2,
  Forall (fun f => exists c v, In (c, v) r /\ col_name c = fst f) fields ->
  deserialize fields (r ++ r2) = deserialize fields r.
Proof.
  intros fields r r2 H. apply deserialize_fields_ext.
  eapply Forall_impl; [|exact H]. intros [ident T] (c & v & Hin & Hc).
  simpl in Hc. simpl. unfold try_get, column_idx.
  destruct (position_exists (fun c => String.eqb (col_name (fst c)) ident) r (c, v) Hin)
    as [y Hy]; [simpl; rewrite Hc; apply String.eqb_refl|].
  rewrite Hy, (position_app_some _ r r2 y Hy). reflexivity.
Qed.

(** A column whose name matches no declared field's, not even up to ASCII
    case, is ignored wherever it stands in the row: the row maps to the
    same entity, or fails, with or without it. *)
Theorem deserialize_ignores_other_columns :
  forall fields r1 r2 c v,
  Forall (fun f => eq_ignore_ascii_case (col_name c) (fst f) = false) fields ->
  returned (deserialize fields (r1 ++ (c, v) :: r2)) = returned (deserialize fields (r1 ++ r2)).
Proof.
  intros fields r1 r2 c v H. apply deserialize_returned_ext.
  eapply Forall_impl; [|exact H]. intros [ident T] Hc. simpl in Hc |- *.
  apply try_get_ok_of_ext. rewrite !column_idx_snd.
  assert (He : String.eqb (col_name c) ident = false).
  { destruct (String.eqb (col_name c) ident) eqn:E; [|reflexivity].
    rewrite (eqb_eq_ignore_ascii_case _ _ E) in Hc. discriminate. }
  rewrite (position_skip (fun c => String.eqb (col_name (fst c)) ident) r1 r2 (c, v) He).
  rewrite (position_skip (fun c => eq_ignore_ascii_case (col_name (fst c)) ident) r1 r2 (c, v) Hc).
  reflexivity.
Qed.

(** The order of two adjacent columns whose names differ, also up to ASCII
    case, does not change what [deserialize] returns. *)
Theorem deserialize_swap_columns :
  forall fields r1 r2 c1 v1 c2 v2,
  eq_ignore_ascii_case (col_name c1) (col_name c2) = false ->
  returned (deserialize fields (r1 ++ (c1, v1) :: (c2, v2) :: r2))
  = returned (deserialize fields (r1 ++ (c2, v2) :: (c1, v1) :: r2)).
Proof.
  intros fields r1 r2 c1 v1 c2 v2 Hc. apply deserialize_returned_ext.
  apply Forall_forall. intros [ident T] _. simpl.
  apply try_get_ok_of_ext. rewrite !column_idx_snd.
  assert (Hi : eq_ignore_ascii_case (col_name c1) ident = false \/
               eq_ignore_ascii_case (col_name c2) ident = false).
  { destruct (eq_ignore_ascii_case (col_name c1) ident) eqn:E1; [|left; reflexivity].
    destruct (eq_ignore_ascii_case (col_name c2) ident) eqn:E2; [|right; reflexivity].
    rewrite (eq_ignore_ascii_case_trans _ _ _ E1 E2) in Hc. discriminate. }
  rewrite (position_swap (fun c => String.eqb (col_name (fst c)) ident) r1 r2 (c1, v1) (c2, v2)).
  - rewrite (position_swap _ r1 r2 (c1, v1) (c2, v2)); [reflexivity | exact Hi].
  - simpl. destruct Hi as [Hi|Hi]; [left|right];
      match goal with |- String.eqb ?a ?b = false =>
        destruct (String.eqb a b) eqn:E; [|reflexivity] end;
      rewrite (eqb_eq_ignore_ascii_case _ _ E) in Hi; discriminate.
Qed.

End RowColumns.

Section RowWitnesses.

Import RowMapper.
Local Open Scope string_scope.

Lemma deserialize_extra_columns_witness :
  deserialize [("id", T_i32)]
    ([(mk_column "id" Pg_Int4, V_i32 1)] ++ [(mk_column "ID" Pg_Int4, V_i32 2)])%list
  = deserialize [("id", T_i32)] [(mk_column "id" Pg_Int4, V_i32 1)].
Proof.
  apply deserialize_extra_columns. constructor; [|constructor].
  exists (mk_column "id" Pg_Int4), (V_i32 1). split; [left|]; reflexivity.
Defined.

Lemma deserialize_ignores_other_columns_witness :
  returned (deserialize [("id", T_i32)]
    ([(mk_column "Id" Pg_Int4, V_i32 1)] ++ (mk_column "extra" Pg_Int8, V_i64 9) :: [])%list)
  = returned (deserialize [("id", T_i32)] ([(mk_column "Id" Pg_Int4, V_i32 1)] ++ [])%list).
Proof.
  apply deserialize_ignores_other_columns. constructor; [reflexivity | constructor].
Defined.

Lemma deserialize_swap_columns_witness :
  returned (deserialize [("id", T_i32); ("name", T_String)]
    ([] ++ (mk_column "ID" Pg_Int4, V_i32 1) :: (mk_column "name" Pg_Text, V_String "x") :: [])%list)
  = returned (deserialize [("id", T_i32); ("name", T_String)]
    ([] ++ (mk_column "name" Pg_Text, V_String "x") :: (mk_column "ID" Pg_Int4, V_i32 1) :: [])%list).
Proof. apply deserialize_swap_columns. reflexivity. Defined.

End RowWitnesses.

(** ** Parameter downcasts *)

(** The downcast of [as_postgres_param] yields the value itself exactly
    when the requested type is the value's dynamic type, and panics with
    "Bad conversion of parameters" otherwise; the [i32], [i64] and [String]
    impls request their own type and so always return their own value. *)
Theorem as_postgres_param_own_type :
  (forall T v, downcast_or_panic T v =
               if type_id_eqb (type_of v) T then Ret v else Panic bad_conversion) /\
  (forall n, as_postgres_param (QP_i32 n) = Ret (V_i32 n)) /\
  (forall n, as_postgres_param (QP_i64 n) = Ret (V_i64 n)) /\
  (forall s, as_postgres_param (QP_String s) = Ret (V_String s)).
Proof.
  split; [|repeat split; reflexivity].
  intros T v. unfold downcast_or_panic, downcast_ref, as_any.
  destruct (type_id_eqb (type_of v) T); reflexivity.
Qed.

(** ** The SQL-Server conversion *)

(** [into_sql] never yields a wire value: on every parameter, the [Any] it
    downcasts holds a [&&dyn QueryParameters], not a [String], and it
    reaches [todo!()]. *)
Theorem into_sql_always_todo :
  forall q, into_sql q = Panic todo_msg.
Proof. intro q. reflexivity. Qed.

(** ** The macros *)

Section MacroLaws.

Import Macros RowMapper.

Lemma filter_fields_ok :
  forall fs, Forall (fun f => field_ident f <> None) fs ->
  exists l, filter_fields fs = Ret l /\
            Forall2 (fun f p => fst p = field_vis f /\ field_ident f = Some (snd p)) fs l.
Proof.
  induction 1 as [|f rest Hf _ IH].
  - exists []. split; constructor.
  - destruct IH as (l & Hl & Hall). unfold filter_fields in *. cbn [map_collect].
    destruct (field_ident f) as [i|] eqn:Hi; [|congruence]. cbn [unwrap_ident].
    rewrite Hl. eexists. split; [reflexivity|]. constructor; [split; [reflexivity | exact Hi] | exact Hall].
Qed.

Lemma filter_fields_fail :
  forall fs, ~ Forall (fun f => field_ident f <> None) fs ->
  filter_fields fs = Panic unwrap_none_msg.
Proof.
  induction fs as [|f rest IH]; intro H.
  - exfalso. apply H. constructor.
  - unfold filter_fields in *. cbn [map_collect].
    destruct (field_ident f) as [i|] eqn:Hi; cbn [unwrap_ident]; [|reflexivity].
    rewrite IH; [reflexivity|]. intro Hr. apply H. constructor; [congruence | exact Hr].
Qed.

Lemma fields_with_types_ok :
  forall fs, Forall (fun f => field_ident f <> None) fs ->
  exists l, fields_with_types fs = Ret l /\
            Forall2 (fun f (p : visibility * string * type_id) =>
                       let '(v, i, t) := p in
                       v = field_vis f /\ field_ident f = Some i /\ t = field_ty f) fs l.
Proof.
  induction 1 as [|f rest Hf _ IH].
  - exists []. split; constructor.
  - destruct IH as (l & Hl & Hall). unfold fields_with_types in *. cbn [map_collect].
    destruct (field_ident f) as [i|] eqn:Hi; [|congruence]. cbn [unwrap_ident].
    rewrite Hl. eexists. split; [reflexivity|].
    constructor; [repeat split; exact Hi | exact Hall].
Qed.

Lemma fields_with_types_fail :
  forall fs, ~ Forall (fun f => field_ident f <> None) fs ->
  fields_with_types fs = Panic unwrap_none_msg.
Proof.
  induction fs as [|f rest IH]; intro H.
  - exfalso. apply H. constructor.
  - unfold fields_with_types in *. cbn [map_collect].
    destruct (field_ident f) as [i|] eqn:Hi; cbn [unwrap_ident]; [|reflexivity].
    rewrite IH; [reflexivity|]. intro Hr. apply H. constructor; [congruence | exact Hr].
Qed.

Lemma combine_idents_types :
  forall fs l,
  Forall2 (fun f p => fst p = field_vis f /\ field_ident f = Some (snd p)) fs l ->
  Forall2 (fun f p => field_ident f = Some (fst p) /\ snd p = field_ty f)
          fs (combine (map snd l) (map field_ty fs)).
Proof.
  induction 1 as [|f p fs l [_ Hi] _ IH]; simpl; constructor; [split; auto | exact IH].
Qed.

(** The [CanyonMapper] derive on a struct whose fields all have names
    succeeds: [find_all] and [find_by_id] get the struct's visibility and
    query the snake-case table name of the struct, and the generated
    [deserialize] reads one column per field, named after the field, at the
    field's type, in declared order. *)
Theorem implement_row_mapper_named_struct :
  forall ast fs, ast_data ast = Data_Struct fs ->
  Forall (fun f => field_ident f <> None) fs ->
  exists t, implement_row_mapper_for_type ast = Ret t /\
            rm_vis t = ast_vis ast /\
            rm_table_name t = TableName.database_table_name_from_struct
                                (TableName.chars_of (ast_ident ast)) /\
            Forall2 (fun f p => field_ident f = Some (fst p) /\ snd p = field_ty f)
                    fs (rm_fields t).
Proof.
  intros ast fs Hd Hnamed.
  destruct (filter_fields_ok fs Hnamed) as (l & Hl & Hall).
  unfold implement_row_mapper_for_type. rewrite Hd. cbn [struct_fields]. rewrite Hl.
  eexists. split; [reflexivity|]. cbn. repeat split.
  apply combine_idents_types. exact Hall.
Qed.

(** The [CanyonMapper] derive on anything else panics: on an enum or a
    union with "Field names can only be derived for structs", on a struct
    with a field without identifier (a tuple struct) in [unwrap]. *)
Theorem implement_row_mapper_rejects :
  forall ast, ~ named_struct ast ->
  implement_row_mapper_for_type ast = Panic (macro_failure (ast_data ast)).
Proof.
  intros [vis ident data] H. unfold named_struct in H. simpl in H.
  unfold implement_row_mapper_for_type. simpl.
  destruct data as [fs| |]; simpl; try reflexivity.
  rewrite filter_fields_fail by exact H. reflexivity.
Qed.

(** [canyon_managed] on a struct whose fields all have names pushes the
    struct's name onto [CANYON_REGISTER] and emits a struct of the same
    name whose fields keep their names, types and order but all take the
    struct's own visibility (each field's declared visibility is
    dropped). *)
Theorem canyon_managed_named_struct :
  forall reg ast fs, ast_data ast = Data_Struct fs ->
  Forall (fun f => field_ident f <> None) fs ->
  exists st, canyon_managed_macro reg ast = (reg ++ [ast_ident ast], Ret st) /\
             st_ident st = ast_ident ast /\
             Forall2 (fun f (p : visibility * string * type_id) =>
                        let '(v, i, t) := p in
                        v = ast_vis ast /\ field_ident f = Some i /\ t = field_ty f)
                     fs (st_fields st).
Proof.
  intros reg ast fs Hd Hnamed.
  destruct (fields_with_types_ok fs Hnamed) as (l & Hl & Hall).
  unfold canyon_managed_macro. rewrite Hd. cbn [struct_fields]. rewrite Hl.
  eexists. split; [reflexivity|]. split; [reflexivity|]. cbn [st_fields].
  clear Hl Hnamed Hd. induction Hall as [|f [[v i] t] fs l Hp _ IH]; simpl; constructor; [|exact IH].
  destruct Hp as (_ & Hi & Ht). auto.
Qed.

(** [canyon_managed] on anything else panics before the push: the register
    is left unchanged. *)
Theorem canyon_managed_rejects :
  forall reg ast, ~ named_struct ast ->
  canyon_managed_macro reg ast = (reg, Panic (macro_failure (ast_data ast))).
Proof.
  intros reg [vis ident data] H. unfold named_struct in H. simpl in H.
  unfold canyon_managed_macro. simpl.
  destruct data as [fs| |]; simpl; try reflexivity.
  rewrite fields_with_types_fail by exact H. reflexivity.
Qed.

End MacroLaws.

Section MacroWitnesses.

Import Macros.
Local Open Scope string_scope.

Lemma not_named_tuple_ast : ~ named_struct tuple_ast.
Proof. intro H. inversion H as [|? ? Hf]. apply Hf. reflexivity. Qed.

Lemma implement_row_mapper_named_struct_witness :
  exists t, implement_row_mapper_for_type league_ast = Ret t /\
            rm_vis t = Vis_Public /\
            rm_table_name t = TableName.chars_of "league" /\
            Forall2 (fun f p => field_ident f = Some (fst p) /\ snd p = field_ty f)
                    [mk_syn_field Vis_Inherited (Some "id") T_i32;
                     mk_syn_field (Vis_Restricted "crate") (Some "name") T_String]
                    (rm_fields t).
Proof.
  apply (implement_row_mapper_named_struct league_ast); [reflexivity|].
  repeat constructor; discriminate.
Defined.

Lemma implement_row_mapper_rejects_witness :
  implement_row_mapper_for_type tuple_ast = Panic unwrap_none_msg.
Proof. apply (implement_row_mapper_rejects tuple_ast). exact not_named_tuple_ast. Defined.

Lemma canyon_managed_named_struct_witness :
  exists st, canyon_managed_macro ["Team"] league_ast = (["Team"; "League"], Ret st) /\
             st_ident st = "League" /\
             Forall2 (fun f (p : visibility * string * type_id) =>
                        let '(v, i, t) := p in
                        v = Vis_Public /\ field_ident f = Some i /\ t = field_ty f)
                     [mk_syn_field Vis_Inherited (Some "id") T_i32;
                      mk_syn_field (Vis_Restricted "crate") (Some "name") T_String]
                     (st_fields st).
Proof.
  apply (canyon_managed_named_struct ["Team"] league_ast); [reflexivity|].
  repeat constructor; discriminate.
Defined.

Lemma canyon_managed_rejects_witness :
  canyon_managed_macro ["Team"] (mk_derive_input Vis_Public "Kind" Data_Enum)
  = (["Team"], Panic not_struct_msg).
Proof. apply (canyon_managed_rejects ["Team"] (mk_derive_input Vis_Public "Kind" Data_Enum)). simpl. tauto. Defined.

End MacroWitnesses.
